(** * Transfer planning engine (src/app.py): model and verified properties

    The program reads a table of rows (region manager, depot code, item code,
    need, transferable quantity), builds two dictionaries keyed by
    (depot, item), and produces a list of transfers in two greedy stages:
    first inside each region, then across the whole network.

    The program is modelled twice, with the same functions.

    The main model computes on integers and on depot codes that are present:
    - depot and item codes are strings (lines 27-28 cast them with
      [astype(str)]); the region manager is an optional string, the missing
      cell being the one [groupby] drops;
    - a numeric cell is [option Z]: an integer, or [None] for a cell that
      [pd.to_numeric(..., errors="coerce")] turns into NaN. It is the program
      on the tables of [exact_table], where pandas computes exactly;
    - the two dictionaries are [gmap]s; [d.get(k, 0)] is [dict_get], and the
      subscript [d[k] -= q] raises [KeyError] on a missing key, which is the
      [KeyError] result below;
    - [sort_values(col, ascending=False)] is library code: it is a parameter
      of the engine, assumed only to return the same rows in another order.

    The module [Float64] is the program on float64 columns, with cells that
    are fractions, infinities or NaN, and with depot cells that may be blank.
    It is run on concrete tables to show where the properties of the main
    model stop. *)

From stdpp Require Import base option list sorting gmap strings.
From Stdlib Require Import ZArith Floats.

Open Scope Z_scope.

(** ** Results of fallible code *)

Inductive result (A : Type) : Type :=
  | Ok (a : A)
  | KeyError (k : string * string).
Arguments Ok {A} a.
Arguments KeyError {A} k.

#[global] Instance result_ret : MRet result := λ A a, Ok a.
#[global] Instance result_bind : MBind result := λ A B f r,
  match r with
  | Ok a => f a
  | KeyError k => KeyError k
  end.

(** A [for] loop whose body may raise. *)
Fixpoint for_each {A S : Type} (body : S → A → result S) (l : list A) (s : S)
    : result S :=
  match l with
  | [] => Ok s
  | x :: l' => s' ← body s x; for_each body l' s'
  end.

(** ** Data model *)

(** A row of the uploaded table, as read. *)
Record RawRow : Type := mkRawRow {
  raw_bolge_muduru : option string;
  raw_depo_kodu : string;
  raw_madde_kodu : string;
  raw_ihtiyac : option Z;
  raw_transfer_edilebilir : option Z
}.

(** A row of [df] after lines 27-36. *)
Record Row : Type := mkRow {
  bolge_muduru : option string;
  depo_kodu : string;
  madde_kodu : string;
  ihtiyac : Z;
  transfer_edilebilir : Z
}.

Inductive TransferTipi : Type := BolgeIci | BolgeDisi.

#[global] Instance TransferTipi_eq_dec : EqDecision TransferTipi.
Proof. solve_decision. Defined.

(** An entry of [transfer_list]. *)
Record Transfer : Type := mkTransfer {
  transfer_tipi : TransferTipi;
  gonderen_depo : string;
  alan_depo : string;
  t_madde_kodu : string;
  transfer_miktari : Z
}.

Abbreviation Dict := (gmap (string * string) Z).

(** The state shared by both stages: the two dictionaries and the list. *)
Record State : Type := mkState {
  need : Dict;
  availability : Dict;
  transfer_list : list Transfer
}.

(** [d.get(k, 0)] *)
Definition dict_get (d : Dict) (k : string * string) : Z := default 0 (d !! k).

(** ** Normalisation (lines 31-36) *)

(** [pd.to_numeric(..., errors="coerce").fillna(0)] *)
Definition to_numeric_fillna (c : option Z) : Z := default 0 c.

(** [df.loc[df[col] < 0, col] = 0] *)
Definition clip_negative (v : Z) : Z := if v <? 0 then 0 else v.

Definition clean (c : option Z) : Z := clip_negative (to_numeric_fillna c).

Definition normalize_row (r : RawRow) : Row :=
  {| bolge_muduru := raw_bolge_muduru r;
     depo_kodu := raw_depo_kodu r;
     madde_kodu := raw_madde_kodu r;
     ihtiyac := clean (raw_ihtiyac r);
     transfer_edilebilir := clean (raw_transfer_edilebilir r) |}.

Definition normalize (data : list RawRow) : list Row := map normalize_row data.

(** ** The dictionaries (lines 39-40)

    [df.set_index([depot, item])[col].to_dict()]: a later row with the same
    key overwrites an earlier one. *)
Definition to_dict (col : Row → Z) (df : list Row) : Dict :=
  foldl (λ d r, <[(depo_kodu r, madde_kodu r) := col r]> d) ∅ df.

Definition initial_state (df : list Row) : State :=
  {| need := to_dict ihtiyac df;
     availability := to_dict transfer_edilebilir df;
     transfer_list := [] |}.

(** ** apply_transfer (lines 44-56)

    On a missing key the subscript of line 55 or 56 raises after the append
    of line 48; the exception leaves the whole handler, so the call returns
    no state. *)

Definition apply_transfer (st : State) (sender_depot receiver_depot item_code : string)
    (qty : Z) (tipi : TransferTipi) : result State :=
  if qty <=? 0 then Ok st
  else
    let tl := transfer_list st ++
              [mkTransfer tipi sender_depot receiver_depot item_code qty] in
    match availability st !! (sender_depot, item_code) with
    | None => KeyError (sender_depot, item_code)
    | Some a =>
        let availability' := <[(sender_depot, item_code) := a - qty]> (availability st) in
        match need st !! (receiver_depot, item_code) with
        | None => KeyError (receiver_depot, item_code)
        | Some n =>
            Ok {| need := <[(receiver_depot, item_code) := n - qty]> (need st);
                  availability := availability';
                  transfer_list := tl |}
        end
    end.

(** ** Table helpers *)

(** [Series.unique()] and [drop_duplicates()]: distinct values in order of
    first appearance. *)
Fixpoint unique_from (seen l : list string) : list string :=
  match l with
  | [] => []
  | x :: l' =>
      if bool_decide (x ∈ seen) then unique_from seen l'
      else x :: unique_from (x :: seen) l'
  end.

Definition unique (l : list string) : list string := unique_from [] l.

(** [df.groupby("Bölge Müdürü")]: one group per manager, in ascending key
    order, rows in table order; rows without a manager are dropped. *)
Definition string_le (a b : string) : Prop := String.leb a b = true.

#[global] Instance string_le_dec : RelDecision string_le.
Proof. intros a b. unfold string_le. apply _. Defined.

Definition group_rows (df : list Row) (manager : string) : list Row :=
  filter (λ r, bolge_muduru r = Some manager) df.

Definition groupby (df : list Row) : list (string * list Row) :=
  map (λ m, (m, group_rows df m))
      (merge_sort string_le (unique (omap bolge_muduru df))).

(** [group[group["Madde Kodu"] == item_code][["Depo Kodu"]].drop_duplicates()] *)
Definition depots_with_item (group : list Row) (item_code : string) : list string :=
  unique (map depo_kodu (filter (λ r, madde_kodu r = item_code) group)).

(** ** The engine, over the library's sort *)

Section Engine.

(** [frame.sort_values(col, ascending=False)] on a two-column frame
    (depot, value). *)
Variable sort_values : list (string * Z) → list (string * Z).

(** Lines 66-68 / 73-75 / 107-109 / 114-116: attach the looked-up value,
    keep the positive ones, sort descending. *)
Definition candidates (d : Dict) (depots : list string) (item_code : string)
    : list (string * Z) :=
  sort_values
    (filter (λ p, 0 < p.2) (map (λ dep, (dep, dict_get d (dep, item_code))) depots)).

(** Lines 86-97 / 126-137: one sender for the current receiver. The loop
    state is the shared state and the local [r_need]. *)
Definition sender_step (tipi : TransferTipi) (item_code recv : string)
    (acc : State * Z) (send : string) : result (State * Z) :=
  let '(st, r_need) := acc in
  if String.eqb send recv then Ok acc
  else
    let s_avail := dict_get (availability st) (send, item_code) in
    if (s_avail <=? 0) || (r_need <=? 0) then Ok acc
    else
      let qty := Z.min r_need s_avail in
      st' ← apply_transfer st send recv item_code qty tipi;
      Ok (st', r_need - qty).

(** Lines 80-97 / 120-137: one receiver. *)
Definition receiver_step (tipi : TransferTipi) (item_code : string)
    (senders : list string) (st : State) (recv : string) : result State :=
  let r_need := dict_get (need st) (recv, item_code) in
  if r_need <=? 0 then Ok st
  else
    acc ← for_each (sender_step tipi item_code recv) senders (st, r_need);
    Ok acc.1.

(** Lines 65-97 / 106-137: the body of the per-item loop; the two stages
    differ in the depots they draw from and in the flag they write. *)
Definition match_item (tipi : TransferTipi) (depots : list string)
    (st : State) (item_code : string) : result State :=
  let receivers := candidates (need st) depots item_code in
  if bool_decide (receivers = []) then Ok st
  else
    let senders := candidates (availability st) depots item_code in
    if bool_decide (senders = []) then Ok st
    else
      for_each (receiver_step tipi item_code (map fst senders))
               (map fst receivers) st.

(** Stage 1, lines 61-97. *)
Definition region_step (st : State) (g : string * list Row) : result State :=
  let group := g.2 in
  let items_in_region := unique (map madde_kodu group) in
  for_each (λ st item_code,
              match_item BolgeIci (depots_with_item group item_code) st item_code)
           items_in_region st.

Definition stage1 (df : list Row) (st : State) : result State :=
  for_each region_step (groupby df) st.

(** Stage 2, lines 102-137. *)
Definition stage2 (df : list Row) (st : State) : result State :=
  let all_items := unique (map madde_kodu df) in
  let all_depots := unique (map depo_kodu df) in
  for_each (match_item BolgeDisi all_depots) all_items st.

(** Lines 17-137: the whole run on the uploaded table. *)
Definition allocate (data : list RawRow) : result State :=
  let df := normalize data in
  st1 ← stage1 df (initial_state df);
  stage2 df st1.

End Engine.

(** One sort to run the engine with: a merge sort, descending by value. *)
Definition value_ge (p q : string * Z) : Prop := q.2 ≤ p.2.

#[global] Instance value_ge_dec : RelDecision value_ge.
Proof. intros p q. unfold value_ge. apply _. Defined.

Definition sort_values_mergesort (l : list (string * Z)) : list (string * Z) :=
  merge_sort value_ge l.

(** The examples of the specification. *)
Definition table_one_region : list RawRow :=
  [ mkRawRow (Some "R1") "A" "X001" (Some 0) (Some 10);
    mkRawRow (Some "R1") "B" "X001" (Some 10) (Some 0) ].

Definition table_two_regions : list RawRow :=
  [ mkRawRow (Some "R1") "A" "X002" (Some 0) (Some 5);
    mkRawRow (Some "R2") "C" "X002" (Some 5) (Some 0) ].

Definition table_short_supply : list RawRow :=
  [ mkRawRow (Some "R1") "A" "X" (Some 10) (Some 0);
    mkRawRow (Some "R1") "B" "X" (Some 0) (Some 4);
    mkRawRow (Some "R1") "C" "X" None (Some 4);
    mkRawRow (Some "R2") "D" "X" (Some (-3)) (Some 1);
    mkRawRow None "E" "X" (Some 2) (Some 7) ].

Definition table_no_need : list RawRow :=
  [ mkRawRow (Some "R1") "A" "X" (Some 0) (Some 10);
    mkRawRow (Some "R1") "B" "X" (Some (-3)) (Some 5);
    mkRawRow (Some "R2") "C" "X" None (Some 2) ].

Definition table_repeated_key : list RawRow :=
  [ mkRawRow (Some "R1") "A" "X" (Some 3) (Some 0);
    mkRawRow (Some "R1") "A" "X" (Some (-7)) (Some 9);
    mkRawRow (Some "R1") "B" "X" (Some 4) None ].

(** ** Replaying a ledger

    The state after the first transfers of a ledger: the same calls of
    [apply_transfer], in order, from the starting state. *)
Definition replay (st : State) (ts : list Transfer) : result State :=
  for_each (λ st t, apply_transfer st (gonderen_depo t) (alan_depo t)
                      (t_madde_kodu t) (transfer_miktari t) (transfer_tipi t))
           ts st.

(** Total quantity a depot receives, or sends, of an item in a ledger. *)
Definition quantity_received (depot item : string) (ts : list Transfer) : Z :=
  foldr (λ t acc,
           if decide (alan_depo t = depot ∧ t_madde_kodu t = item)
           then transfer_miktari t + acc else acc) 0 ts.

Definition quantity_sent (depot item : string) (ts : list Transfer) : Z :=
  foldr (λ t acc,
           if decide (gonderen_depo t = depot ∧ t_madde_kodu t = item)
           then transfer_miktari t + acc else acc) 0 ts.

(** ** One applied transfer, and sequences of them *)

(** What the greedy loops do when they reach line 96 / 136: sender and
    receiver differ, both looked-up values are positive, and the quantity is
    their minimum. *)
Definition applied (st : State) (t : Transfer) (st' : State) : Prop :=
  gonderen_depo t ≠ alan_depo t ∧
  0 < dict_get (need st) (alan_depo t, t_madde_kodu t) ∧
  0 < dict_get (availability st) (gonderen_depo t, t_madde_kodu t) ∧
  transfer_miktari t =
    Z.min (dict_get (need st) (alan_depo t, t_madde_kodu t))
          (dict_get (availability st) (gonderen_depo t, t_madde_kodu t)) ∧
  apply_transfer st (gonderen_depo t) (alan_depo t) (t_madde_kodu t)
                 (transfer_miktari t) (transfer_tipi t) = Ok st'.

Inductive trace : State → list Transfer → State → Prop :=
  | trace_nil st : trace st [] st
  | trace_cons st t st1 ts st2 :
      applied st t st1 → trace st1 ts st2 → trace st (t :: ts) st2.

(** A run from [st] to [st'] all of whose transfers satisfy [P]. *)
Definition runs (P : Transfer → Prop) (st st' : State) : Prop :=
  ∃ ts, trace st ts st' ∧ Forall P ts.

(** Every stored value is non-negative. *)
Definition nonneg (st : State) : Prop :=
  (∀ k v, need st !! k = Some v → 0 ≤ v) ∧
  (∀ k v, availability st !! k = Some v → 0 ≤ v).

(** A transfer written by a pass for [item] with flag [tipi], whose receiver
    is drawn from [rs] and whose sender from [ss]. *)
Definition matched (tipi : TransferTipi) (item : string) (rs ss : list string)
    (t : Transfer) : Prop :=
  transfer_tipi t = tipi ∧ t_madde_kodu t = item ∧
  alan_depo t ∈ rs ∧ gonderen_depo t ∈ ss.

(** A receiver is settled against the senders [ss] when its need is met or
    every other sender is empty. *)
Definition settled (item : string) (ss : list string) (st : State) (r : string) : Prop :=
  dict_get (need st) (r, item) ≤ 0 ∨
  ∀ s, s ∈ ss → s ≠ r → dict_get (availability st) (s, item) ≤ 0.

(** After a pass for an item over [depots], no need is left at one depot
    while another holds a surplus. *)
Definition exhausted (item : string) (depots : list string) (st : State) : Prop :=
  ∀ D E, D ∈ depots → E ∈ depots → D ≠ E →
    ¬ (0 < dict_get (need st) (D, item) ∧ 0 < dict_get (availability st) (E, item)).

(** Sender and receiver both have a row for the item in the group of one
    manager. *)
Definition same_group (df : list Row) (t : Transfer) : Prop :=
  ∃ m ra rb,
    ra ∈ df ∧ rb ∈ df ∧
    bolge_muduru ra = Some m ∧ bolge_muduru rb = Some m ∧
    depo_kodu ra = gonderen_depo t ∧ madde_kodu ra = t_madde_kodu t ∧
    depo_kodu rb = alan_depo t ∧ madde_kodu rb = t_madde_kodu t.

Definition stage1_transfer (df : list Row) (t : Transfer) : Prop :=
  transfer_tipi t = BolgeIci ∧ same_group df t.

Definition stage2_transfer (t : Transfer) : Prop :=
  transfer_tipi t = BolgeDisi.

(** ** Cells pandas can load exactly

    The engine above computes on integers. It is the program on the tables
    whose need and availability cells [pd.to_numeric] reads as integers of
    magnitude at most 2^53, or as NaN: pandas then holds the columns as int64
    or as float64 values that are integers, and every comparison, [min] and
    subtraction of lines 55-56 and 82-97 is exact. *)
Definition exact_cell (c : option Z) : Prop :=
  match c with
  | Some v => Z.abs v ≤ 2 ^ 53
  | None => True
  end.

Definition exact_table (data : list RawRow) : Prop :=
  ∀ r, r ∈ data → exact_cell (raw_ihtiyac r) ∧ exact_cell (raw_transfer_edilebilir r).

(** ** The engine on the cells as pandas holds them

    The same code on a table whose two numeric columns are float64 (a column
    with a fraction, a blank or a text cell): a cell is the binary64 value
    [pd.to_numeric(..., errors="coerce")] returns, NaN for a blank or
    unreadable cell and an infinity for the text [inf]; the dictionaries hold
    binary64 values and the comparisons, [min] and [-=] are those of Python
    floats; an int64 column of integers below 2^53 holds the same numbers. A
    depot code is optional: with pandas 3 a blank depot cell is still missing
    (NaN) after [astype(str)], it is one dictionary key, and [send == recv]
    is false for it. Item codes are present. *)
Module Float64.

#[local] Set Warnings "-inexact-float".

(** A row after [pd.read_excel] and [pd.to_numeric]. *)
Record Row : Type := mkRow {
  bolge_muduru : option string;
  depo_kodu : option string;
  madde_kodu : string;
  ihtiyac : float;
  transfer_edilebilir : float
}.

Record Transfer : Type := mkTransfer {
  transfer_tipi : TransferTipi;
  gonderen_depo : option string;
  alan_depo : option string;
  t_madde_kodu : string;
  transfer_miktari : float
}.

Abbreviation Dict := (gmap (option string * string) float).

Record State : Type := mkState {
  need : Dict;
  availability : Dict;
  transfer_list : list Transfer
}.

(** [d.get(k, 0)] *)
Definition dict_get (d : Dict) (k : option string * string) : float :=
  default 0%float (d !! k).

(** [.fillna(0)] *)
Definition fillna (c : float) : float :=
  if PrimFloat.is_nan c then 0%float else c.

(** [df.loc[df[col] < 0, col] = 0] *)
Definition clip_negative (v : float) : float :=
  if (v <? 0)%float then 0%float else v.

Definition clean (c : float) : float := clip_negative (fillna c).

Definition normalize_row (r : Row) : Row :=
  {| bolge_muduru := bolge_muduru r;
     depo_kodu := depo_kodu r;
     madde_kodu := madde_kodu r;
     ihtiyac := clean (ihtiyac r);
     transfer_edilebilir := clean (transfer_edilebilir r) |}.

Definition normalize (data : list Row) : list Row := map normalize_row data.

Definition to_dict (col : Row → float) (df : list Row) : Dict :=
  foldl (λ d r, <[(depo_kodu r, madde_kodu r) := col r]> d) ∅ df.

Definition initial_state (df : list Row) : State :=
  {| need := to_dict ihtiyac df;
     availability := to_dict transfer_edilebilir df;
     transfer_list := [] |}.

(** Lines 44-56. [qty <= 0] is false for NaN, as in Python. The key of a
    [KeyError] is shown as Python prints it, a missing depot code as [nan]. *)
Definition apply_transfer (st : State) (sender_depot receiver_depot : option string)
    (item_code : string) (qty : float) (tipi : TransferTipi) : result State :=
  if (qty <=? 0)%float then Ok st
  else
    let tl := transfer_list st ++
              [mkTransfer tipi sender_depot receiver_depot item_code qty] in
    match availability st !! (sender_depot, item_code) with
    | None => KeyError (default "nan" sender_depot, item_code)
    | Some a =>
        let availability' :=
          <[(sender_depot, item_code) := (a - qty)%float]> (availability st) in
        match need st !! (receiver_depot, item_code) with
        | None => KeyError (default "nan" receiver_depot, item_code)
        | Some n =>
            Ok {| need := <[(receiver_depot, item_code) := (n - qty)%float]> (need st);
                  availability := availability';
                  transfer_list := tl |}
        end
    end.

(** [drop_duplicates()] on the depot column: first appearances, a missing
    code counted once. *)
Fixpoint unique_from (seen l : list (option string)) : list (option string) :=
  match l with
  | [] => []
  | x :: l' =>
      if bool_decide (x ∈ seen) then unique_from seen l'
      else x :: unique_from (x :: seen) l'
  end.

Definition unique_depots (l : list (option string)) : list (option string) :=
  unique_from [] l.

Definition group_rows (df : list Row) (manager : string) : list Row :=
  filter (λ r, bolge_muduru r = Some manager) df.

Definition groupby (df : list Row) : list (string * list Row) :=
  map (λ m, (m, group_rows df m))
      (merge_sort string_le (unique (omap bolge_muduru df))).

Definition depots_with_item (group : list Row) (item_code : string)
    : list (option string) :=
  unique_depots (map depo_kodu (filter (λ r, madde_kodu r = item_code) group)).

(** [send == recv] at lines 88 and 128: a missing code equals nothing. *)
Definition depot_eqb (send recv : option string) : bool :=
  match send, recv with
  | Some a, Some b => String.eqb a b
  | _, _ => false
  end.

(** Python's [min(a, b)]: [b] if [b < a], else [a]. *)
Definition py_min (a b : float) : float := if (b <? a)%float then b else a.

Section Engine.

Variable sort_values : list (option string * float) → list (option string * float).

Definition candidates (d : Dict) (depots : list (option string)) (item_code : string)
    : list (option string * float) :=
  sort_values
    (filter (λ p, (0 <? p.2)%float = true)
            (map (λ dep, (dep, dict_get d (dep, item_code))) depots)).

Definition sender_step (tipi : TransferTipi) (item_code : string) (recv : option string)
    (acc : State * float) (send : option string) : result (State * float) :=
  let '(st, r_need) := acc in
  if depot_eqb send recv then Ok acc
  else
    let s_avail := dict_get (availability st) (send, item_code) in
    if (s_avail <=? 0)%float || (r_need <=? 0)%float then Ok acc
    else
      let qty := py_min r_need s_avail in
      st' ← apply_transfer st send recv item_code qty tipi;
      Ok (st', (r_need - qty)%float).

Definition receiver_step (tipi : TransferTipi) (item_code : string)
    (senders : list (option string)) (st : State) (recv : option string)
    : result State :=
  let r_need := dict_get (need st) (recv, item_code) in
  if (r_need <=? 0)%float then Ok st
  else
    acc ← for_each (sender_step tipi item_code recv) senders (st, r_need);
    Ok acc.1.

Definition match_item (tipi : TransferTipi) (depots : list (option string))
    (st : State) (item_code : string) : result State :=
  match candidates (need st) depots item_code with
  | [] => Ok st
  | receivers =>
      match candidates (availability st) depots item_code with
      | [] => Ok st
      | senders =>
          for_each (receiver_step tipi item_code (map fst senders))
                   (map fst receivers) st
      end
  end.

Definition region_step (st : State) (g : string * list Row) : result State :=
  let group := g.2 in
  let items_in_region := unique (map madde_kodu group) in
  for_each (λ st item_code,
              match_item BolgeIci (depots_with_item group item_code) st item_code)
           items_in_region st.

Definition stage1 (df : list Row) (st : State) : result State :=
  for_each region_step (groupby df) st.

Definition stage2 (df : list Row) (st : State) : result State :=
  let all_items := unique (map madde_kodu df) in
  let all_depots := unique_depots (map depo_kodu df) in
  for_each (match_item BolgeDisi all_depots) all_items st.

Definition allocate (data : list Row) : result State :=
  let df := normalize data in
  st1 ← stage1 df (initial_state df);
  stage2 df st1.

End Engine.

(** One sort to run the engine with: a merge sort, descending by value. *)
Definition value_ge (p q : option string * float) : Prop := (q.2 <=? p.2)%float = true.

#[global] Instance value_ge_dec : RelDecision value_ge.
Proof. intros p q. unfold value_ge. apply _. Defined.

Definition sort_values_mergesort (l : list (option string * float))
    : list (option string * float) :=
  merge_sort value_ge l.

(** The exact value of a finite binary64 number, in units of 2^-1074. *)
Definition units (x : float) : Z :=
  match Prim2SF x with
  | S754_finite s m e => cond_Zopp s (Z.pos m) * 2 ^ (e + 1074)
  | _ => 0
  end.

(** A receiver of 0.9 and two senders of 0.3 and 0.2, in one region. *)
Definition table_fractions : list Row :=
  [ mkRow (Some "R1") (Some "A") "X" 0.9 0;
    mkRow (Some "R1") (Some "B") "X" 0 0.3;
    mkRow (Some "R1") (Some "C") "X" 0 0.2 ].

(** A receiver of 10^16 and a sender of 1; the blank cells make both columns
    float64. *)
Definition table_large : list Row :=
  [ mkRow (Some "R1") (Some "A") "X" 1e16 nan;
    mkRow (Some "R1") (Some "B") "X" nan 1 ].

(** The text [inf] as the need of A and as the availability of D. *)
Definition table_infinite : list Row :=
  [ mkRow (Some "R1") (Some "A") "X" infinity nan;
    mkRow (Some "R1") (Some "D") "X" nan infinity ].

(** One row with a blank depot cell, a need of 3 and an availability of 5. *)
Definition table_blank_depot : list Row :=
  [ mkRow (Some "R1") None "X" 3 5 ].

End Float64.

(** ** The column check (lines 19-24) *)

Definition required_cols : list string :=
  ["Bölge Müdürü"; "Depo Kodu"; "Madde Kodu"; "İhtiyaç"; "Transfer Edilebilir"].

(** [missing = [c for c in required_cols if c not in df.columns]] *)
Definition missing (columns : list string) : list string :=
  filter (λ c, c ∉ columns) required_cols.

(** ** Further vocabulary *)

(** The key a table row writes in both dictionaries. *)
Definition raw_key (r : RawRow) : string * string :=
  (raw_depo_kodu r, raw_madde_kodu r).

(** What identifies a line of the ledger: sender, receiver and item. *)
Definition line_key (t : Transfer) : string * string * string :=
  (gonderen_depo t, alan_depo t, t_madde_kodu t).


(** ** Lemmas: results and loops *)

Lemma sort_values_mergesort_perm l : sort_values_mergesort l ≡ₚ l.
Proof. apply merge_sort_Permutation. Qed.

(** Loop rule with an invariant indexed by the elements already visited. *)
Lemma for_each_ind {A S : Type} (body : S → A → result S)
    (I : list A → S → Prop) l s :
  I [] s →
  (∀ visited x rest s1, l = visited ++ x :: rest → I visited s1 →
     ∃ s2, body s1 x = Ok s2 ∧ I (visited ++ [x]) s2) →
  ∃ s', for_each body l s = Ok s' ∧ I l s'.
Proof.
  intros H0 Hstep.
  assert (∀ rest visited s1, l = visited ++ rest → I visited s1 →
            ∃ s', for_each body rest s1 = Ok s' ∧ I l s') as Hgen.
  { induction rest as [|x rest IH]; intros visited s1 Hl HI; simpl.
    - exists s1. rewrite app_nil_r in Hl. by subst.
    - destruct (Hstep visited x rest s1 Hl HI) as (s2 & Hb & HI2).
      rewrite Hb. simpl. apply (IH (visited ++ [x])); [|done].
      by rewrite <- app_assoc. }
  by apply (Hgen l []).
Qed.

(** ** Lemmas: dictionaries *)

Lemma dict_get_pos_lookup (d : Dict) k :
  0 < dict_get d k → ∃ v, d !! k = Some v ∧ 0 < v.
Proof.
  unfold dict_get. destruct (d !! k) as [v|]; simpl; [eauto | lia].
Qed.

Lemma dict_get_insert (d : Dict) k v k' :
  dict_get (<[k := v]> d) k' = if decide (k' = k) then v else dict_get d k'.
Proof.
  unfold dict_get. destruct (decide (k' = k)) as [->|Hne].
  - by rewrite lookup_insert_eq.
  - by rewrite lookup_insert_ne.
Qed.

Lemma to_dict_snoc col df r :
  to_dict col (df ++ [r]) = <[(depo_kodu r, madde_kodu r) := col r]> (to_dict col df).
Proof. unfold to_dict. by rewrite foldl_app. Qed.

(** A stored value is the column value of some row with that key. *)
Lemma to_dict_lookup col df k v :
  to_dict col df !! k = Some v →
  ∃ r, r ∈ df ∧ (depo_kodu r, madde_kodu r) = k ∧ col r = v.
Proof.
  revert v. induction df as [|r df IH] using rev_ind; intros v.
  - unfold to_dict. simpl. by rewrite lookup_empty.
  - rewrite to_dict_snoc.
    destruct (decide ((depo_kodu r, madde_kodu r) = k)) as [Heq|Hne].
    + rewrite Heq, lookup_insert_eq. intros [= <-].
      exists r. split; [|done]. apply elem_of_app. right. apply list_elem_of_singleton. done.
    + rewrite lookup_insert_ne by done. intros Hv.
      destruct (IH v Hv) as (r' & Hin & Hk & Hc).
      exists r'. split; [|done]. apply elem_of_app. by left.
Qed.

Lemma clean_nonneg c : 0 ≤ clean c.
Proof.
  unfold clean, clip_negative.
  destruct (Z.ltb_spec (to_numeric_fillna c) 0); lia.
Qed.

(** ** Lemmas: table helpers *)

Lemma unique_from_elem seen l x :
  x ∈ unique_from seen l ↔ x ∈ l ∧ x ∉ seen.
Proof.
  revert seen. induction l as [|y l IH]; intros seen; simpl.
  - split; [by intros ?%elem_of_nil | by intros [?%elem_of_nil _]].
  - case_bool_decide as Hy.
    + rewrite IH, elem_of_cons. split; [intros [? ?]; auto|].
      intros [[->|?] ?]; [done | auto].
    + rewrite !elem_of_cons, IH, not_elem_of_cons. split.
      * intros [->|[? [? ?]]]; auto.
      * intros [[->|?] ?]; [by left|].
        destruct (decide (x = y)) as [->|]; auto.
Qed.

Lemma unique_elem l x : x ∈ unique l ↔ x ∈ l.
Proof.
  unfold unique. rewrite unique_from_elem. split; [by intros [? _]|].
  intros ?. split; [done | apply not_elem_of_nil].
Qed.

Lemma groupby_elem df m group :
  (m, group) ∈ groupby df → group = group_rows df m.
Proof.
  unfold groupby. intros (m' & [= -> ->] & _)%list_elem_of_fmap. done.
Qed.

Lemma group_rows_elem df m r :
  r ∈ group_rows df m ↔ r ∈ df ∧ bolge_muduru r = Some m.
Proof. unfold group_rows. by rewrite list_elem_of_filter, (comm and). Qed.

Lemma depots_with_item_elem group item d :
  d ∈ depots_with_item group item ↔
  ∃ r, r ∈ group ∧ madde_kodu r = item ∧ depo_kodu r = d.
Proof.
  unfold depots_with_item. rewrite unique_elem, list_elem_of_fmap.
  split.
  - intros (r & -> & (Hi & Hin)%list_elem_of_filter). eauto.
  - intros (r & Hin & Hi & <-). exists r. split; [done|].
    apply list_elem_of_filter. done.
Qed.

(** ** Lemmas: one applied transfer *)


Lemma apply_transfer_ok st s r i q tipi a n :
  0 < q → availability st !! (s, i) = Some a → need st !! (r, i) = Some n →
  apply_transfer st s r i q tipi =
    Ok {| need := <[(r, i) := n - q]> (need st);
          availability := <[(s, i) := a - q]> (availability st);
          transfer_list := transfer_list st ++ [mkTransfer tipi s r i q] |}.
Proof.
  intros Hq Ha Hn. unfold apply_transfer.
  destruct (Z.leb_spec q 0); [lia|]. by rewrite Ha, Hn.
Qed.

(** The effect of an applied transfer on the three components. *)
Lemma applied_effect st t st' :
  applied st t st' →
  0 < transfer_miktari t ∧
  transfer_list st' = transfer_list st ++ [t] ∧
  (∀ k, dict_get (need st') k =
        dict_get (need st) k -
        (if decide (k = (alan_depo t, t_madde_kodu t)) then transfer_miktari t else 0)) ∧
  (∀ k, dict_get (availability st') k =
        dict_get (availability st) k -
        (if decide (k = (gonderen_depo t, t_madde_kodu t)) then transfer_miktari t else 0)).
Proof.
  destruct t as [tipi s r i q]. unfold applied. simpl.
  intros (_ & Hn & Ha & Hq & Happ).
  assert (0 < q) as Hpos by lia.
  destruct (dict_get_pos_lookup _ _ Hn) as (n & Hn' & _).
  destruct (dict_get_pos_lookup _ _ Ha) as (a & Ha' & _).
  rewrite (apply_transfer_ok _ _ _ _ _ _ a n Hpos Ha' Hn') in Happ.
  injection Happ as <-. simpl.
  split; [done|]. split; [done|].
  split; intros k; rewrite dict_get_insert; case_decide; subst; try lia.
  - unfold dict_get. rewrite Hn'. simpl. lia.
  - unfold dict_get. rewrite Ha'. simpl. lia.
Qed.

(** ** Lemmas: sequences of applied transfers *)

Lemma trace_app st1 ts1 st2 ts2 st3 :
  trace st1 ts1 st2 → trace st2 ts2 st3 → trace st1 (ts1 ++ ts2) st3.
Proof.
  induction 1 as [|st t st1' ts st2' Hap Htr IH]; intros H2; simpl; [done|].
  eapply trace_cons; [done | by apply IH].
Qed.

Lemma trace_split st p s st' :
  trace st (p ++ s) st' → ∃ mid, trace st p mid ∧ trace mid s st'.
Proof.
  revert st. induction p as [|t p IH]; intros st; simpl.
  - intros H. exists st. split; [constructor | done].
  - inversion 1 as [|? ? st1 ? ? Hap Htr]; subst.
    destruct (IH _ Htr) as (mid & Hp & Hs).
    exists mid. split; [by eapply trace_cons | done].
Qed.

Lemma trace_replay st ts st' : trace st ts st' → replay st ts = Ok st'.
Proof.
  induction 1 as [|st t st1 ts st2 Hap Htr IH]; [done|].
  destruct Hap as (_ & _ & _ & _ & Happ). unfold replay in *. simpl.
  by rewrite Happ.
Qed.

Lemma trace_ledger st ts st' :
  trace st ts st' → transfer_list st' = transfer_list st ++ ts.
Proof.
  induction 1 as [|st t st1 ts st2 Hap Htr IH]; [by rewrite app_nil_r|].
  destruct (applied_effect _ _ _ Hap) as (_ & Hl & _).
  rewrite IH, Hl, <- app_assoc. done.
Qed.

(** Both dictionaries only go down along a run. *)
Lemma trace_decreasing st ts st' :
  trace st ts st' →
  ∀ k, dict_get (need st') k ≤ dict_get (need st) k ∧
       dict_get (availability st') k ≤ dict_get (availability st) k.
Proof.
  induction 1 as [|st t st1 ts st2 Hap Htr IH]; intros k; [lia|].
  destruct (applied_effect _ _ _ Hap) as (Hq & _ & Hn & Ha).
  specialize (IH k). specialize (Hn k). specialize (Ha k).
  repeat case_decide; lia.
Qed.

(** Conservation along a run. *)
Lemma trace_conservation st ts st' :
  trace st ts st' →
  ∀ depot item,
    dict_get (need st) (depot, item) - dict_get (need st') (depot, item)
      = quantity_received depot item ts ∧
    dict_get (availability st) (depot, item) - dict_get (availability st') (depot, item)
      = quantity_sent depot item ts.
Proof.
  induction 1 as [|st t st1 ts st2 Hap Htr IH]; intros depot item; simpl; [lia|].
  destruct (applied_effect _ _ _ Hap) as (_ & _ & Hn & Ha).
  specialize (IH depot item). specialize (Hn (depot, item)). specialize (Ha (depot, item)).
  destruct IH as [IHn IHa].
  split.
  - destruct (decide (alan_depo t = depot ∧ t_madde_kodu t = item)) as [[<- <-]|Hne].
    + rewrite decide_True in Hn by done. lia.
    + rewrite decide_False in Hn; [lia|]. intros [= -> ->]. by apply Hne.
  - destruct (decide (gonderen_depo t = depot ∧ t_madde_kodu t = item)) as [[<- <-]|Hne].
    + rewrite decide_True in Ha by done. lia.
    + rewrite decide_False in Ha; [lia|]. intros [= -> ->]. by apply Hne.
Qed.

Lemma nonneg_dict_get (d : Dict) :
  (∀ k v, d !! k = Some v → 0 ≤ v) ↔ (∀ k, 0 ≤ dict_get d k).
Proof.
  unfold dict_get. split.
  - intros H k. destruct (d !! k) as [v|] eqn:E; simpl; [eauto | lia].
  - intros H k v E. specialize (H k). by rewrite E in H.
Qed.

Lemma applied_nonneg st t st' : applied st t st' → nonneg st → nonneg st'.
Proof.
  intros Hap [Hn Ha].
  destruct (applied_effect _ _ _ Hap) as (_ & _ & Hn' & Ha').
  destruct Hap as (_ & _ & _ & Hq & _).
  rewrite nonneg_dict_get in Hn, Ha.
  split; apply nonneg_dict_get; intros k.
  - rewrite Hn'. specialize (Hn k). case_decide; subst; lia.
  - rewrite Ha'. specialize (Ha k). case_decide; subst; lia.
Qed.

Lemma trace_nonneg st ts st' : trace st ts st' → nonneg st → nonneg st'.
Proof. induction 1; eauto using applied_nonneg. Qed.

Lemma initial_state_nonneg data : nonneg (initial_state (normalize data)).
Proof.
  split; simpl; intros k v (r & Hin & _ & <-)%to_dict_lookup;
    apply list_elem_of_fmap in Hin as (raw & -> & _); simpl; apply clean_nonneg.
Qed.

Lemma runs_refl P st : runs P st st.
Proof. exists []. split; constructor. Qed.

Lemma runs_trans P st1 st2 st3 : runs P st1 st2 → runs P st2 st3 → runs P st1 st3.
Proof.
  intros (ts1 & H1 & F1) (ts2 & H2 & F2). exists (ts1 ++ ts2).
  split; [by eapply trace_app | by apply Forall_app].
Qed.

Lemma runs_weaken (P Q : Transfer → Prop) st st' :
  (∀ t, P t → Q t) → runs P st st' → runs Q st st'.
Proof.
  intros HPQ (ts & H & F). exists ts. split; [done|].
  eapply Forall_impl; eauto.
Qed.

Lemma runs_decreasing P st st' :
  runs P st st' →
  ∀ k, dict_get (need st') k ≤ dict_get (need st) k ∧
       dict_get (availability st') k ≤ dict_get (availability st) k.
Proof. intros (ts & H & _). by eapply trace_decreasing. Qed.

Lemma settled_decreasing P item ss st st' r :
  runs P st st' → settled item ss st r → settled item ss st' r.
Proof.
  intros Hrun [Hn|Ha].
  - left. pose proof (runs_decreasing _ _ _ Hrun (r, item)). lia.
  - right. intros s Hs Hne. specialize (Ha s Hs Hne).
    pose proof (runs_decreasing _ _ _ Hrun (s, item)). lia.
Qed.

Lemma settled_weaken item ss ss' st r :
  (∀ s, s ∈ ss' → s ≠ r → s ∈ ss ∨ dict_get (availability st) (s, item) ≤ 0) →
  settled item ss st r → settled item ss' st r.
Proof.
  intros Hsub [Hn|Ha]; [by left|]. right. intros s Hs Hne.
  destruct (Hsub s Hs Hne); auto.
Qed.

Lemma trace_distinct st ts st' :
  trace st ts st' → Forall (λ t, gonderen_depo t ≠ alan_depo t) ts.
Proof. induction 1 as [|st t st1 ts st2 [Hne _] _ IH]; constructor; done. Qed.

Lemma exhausted_decreasing P item depots st st' :
  runs P st st' → exhausted item depots st → exhausted item depots st'.
Proof.
  intros Hrun Hex D E HD HE Hne [Hn Ha]. apply (Hex D E HD HE Hne).
  pose proof (runs_decreasing _ _ _ Hrun (D, item)).
  pose proof (runs_decreasing _ _ _ Hrun (E, item)). lia.
Qed.

(** A positive looked-up value in the initial dictionaries comes from a row
    of the table. *)
Lemma initial_key_in_table col df d i :
  0 < dict_get (to_dict col df) (d, i) →
  d ∈ unique (map depo_kodu df) ∧ i ∈ unique (map madde_kodu df).
Proof.
  intros (v & (r & Hin & [= <- <-] & _)%to_dict_lookup & _)%dict_get_pos_lookup.
  rewrite !unique_elem, !list_elem_of_fmap. split; exists r; done.
Qed.

(** ** The greedy loops and the two stages *)

Section Verification.

Variable sort_values : list (string * Z) → list (string * Z).
Hypothesis sort_values_perm : ∀ l, sort_values l ≡ₚ l.

Lemma candidates_elem d depots item x :
  x ∈ (candidates sort_values d depots item).*1 ↔
  x ∈ depots ∧ 0 < dict_get d (x, item).
Proof.
  unfold candidates. rewrite sort_values_perm, list_elem_of_fmap. split.
  - intros ([dep v] & -> & [Hv Hin]%list_elem_of_filter). simpl in *.
    apply list_elem_of_fmap in Hin as (dep' & [= -> ->] & Hin). done.
  - intros [Hin Hv]. exists (x, dict_get d (x, item)). split; [done|].
    apply list_elem_of_filter. split; [done|].
    apply list_elem_of_fmap. eauto.
Qed.

(** The inner loop over the senders, for one receiver. *)
Lemma senders_loop tipi item recv ss st :
  ∃ st' r',
    for_each (sender_step tipi item recv) ss
             (st, dict_get (need st) (recv, item)) = Ok (st', r') ∧
    r' = dict_get (need st') (recv, item) ∧
    runs (matched tipi item [recv] ss) st st' ∧
    settled item ss st' recv.
Proof.
  revert st. induction ss as [|s ss IH]; intros st; simpl.
  { exists st, (dict_get (need st) (recv, item)).
    split; [done|]. split; [done|]. split; [apply runs_refl|].
    right. by intros s ?%elem_of_nil. }
  assert (∀ st0 st1, runs (matched tipi item [recv] ss) st0 st1 →
            runs (matched tipi item [recv] (s :: ss)) st0 st1) as Hlift.
  { intros st0 st1. apply runs_weaken. intros t (? & ? & ? & ?).
    repeat split; auto. by apply elem_of_cons; right. }
  destruct (String.eqb_spec s recv) as [->|Hne].
  { destruct (IH st) as (st' & r' & Hloop & Hr & Hrun & Hset).
    exists st', r'. simpl. split; [done|]. split; [done|]. split; [auto|].
    eapply settled_weaken; [|exact Hset].
    intros s0 [->|?]%elem_of_cons ?; [done | by left]. }
  set (r := dict_get (need st) (recv, item)).
  set (a := dict_get (availability st) (s, item)).
  destruct (Z.leb_spec a 0) as [Ha|Ha]; simpl.
  { destruct (IH st) as (st' & r' & Hloop & Hr & Hrun & Hset).
    exists st', r'. split; [done|]. split; [done|]. split; [auto|].
    eapply settled_weaken; [|exact Hset].
    intros s0 [->|?]%elem_of_cons ?; [right | by left].
    pose proof (runs_decreasing _ _ _ Hrun (s, item)). subst a. lia. }
  destruct (Z.leb_spec r 0) as [Hr0|Hr0]; simpl.
  { destruct (IH st) as (st' & r' & Hloop & Hr & Hrun & Hset).
    exists st', r'. split; [done|]. split; [done|]. split; [auto|].
    left. pose proof (runs_decreasing _ _ _ Hrun (recv, item)). subst r. lia. }
  set (q := Z.min r a).
  destruct (dict_get_pos_lookup _ _ Hr0) as (n & Hn & _).
  destruct (dict_get_pos_lookup _ _ Ha) as (v & Hv & _).
  assert (0 < q) as Hq by (subst q; lia).
  rewrite (apply_transfer_ok st s recv item q tipi v n Hq Hv Hn). simpl.
  set (st1 := {| need := <[(recv, item) := n - q]> (need st);
                 availability := <[(s, item) := v - q]> (availability st);
                 transfer_list := transfer_list st ++ [mkTransfer tipi s recv item q] |}).
  assert (applied st (mkTransfer tipi s recv item q) st1) as Hap.
  { repeat split; simpl; try done.
    by apply apply_transfer_ok. }
  clearbody st1.
  destruct (applied_effect _ _ _ Hap) as (_ & _ & Hneed & Havail).
  simpl in Hneed, Havail.
  assert (r - q = dict_get (need st1) (recv, item)) as Hr1.
  { rewrite Hneed, decide_True by done. done. }
  rewrite Hr1.
  destruct (IH st1) as (st' & r' & Hloop & Hr & Hrun & Hset).
  exists st', r'. split; [done|]. split; [done|]. split.
  { eapply runs_trans; [|apply Hlift, Hrun].
    exists [mkTransfer tipi s recv item q]. split.
    - eapply trace_cons; [exact Hap | constructor].
    - repeat constructor; simpl. }
  pose proof (runs_decreasing _ _ _ Hrun (recv, item)) as [Hdn _].
  pose proof (runs_decreasing _ _ _ Hrun (s, item)) as [_ Hda].
  specialize (Havail (s, item)). rewrite decide_True in Havail by done.
  fold a in Havail.
  destruct (decide (r ≤ a)) as [Hle|Hgt].
  - left. rewrite <- Hr1 in Hdn. subst q. lia.
  - eapply settled_weaken; [|exact Hset].
    intros s0 [->|?]%elem_of_cons ?; [right | by left].
    subst q. lia.
Qed.

(** The outer loop over the receivers. *)
Lemma receivers_loop tipi item ss rs st :
  ∃ st',
    for_each (receiver_step tipi item ss) rs st = Ok st' ∧
    runs (matched tipi item rs ss) st st' ∧
    ∀ r, r ∈ rs → settled item ss st' r.
Proof.
  revert st. induction rs as [|r rs IH]; intros st; simpl.
  { exists st. split; [done|]. split; [apply runs_refl|].
    by intros r ?%elem_of_nil. }
  assert (∃ st1, receiver_step tipi item ss st r = Ok st1 ∧
            runs (matched tipi item [r] ss) st st1 ∧
            settled item ss st1 r) as (st1 & Hstep & Hrun1 & Hset1).
  { unfold receiver_step.
    destruct (Z.leb_spec (dict_get (need st) (r, item)) 0) as [Hle|Hpos].
    - exists st. split; [done|]. split; [apply runs_refl | by left].
    - destruct (senders_loop tipi item r ss st) as (st1 & r1 & Hloop & _ & Hrun & Hset).
      exists st1. rewrite Hloop. done. }
  rewrite Hstep. simpl.
  destruct (IH st1) as (st' & Hloop & Hrun & Hset).
  exists st'. split; [done|]. split.
  - eapply runs_trans.
    + eapply runs_weaken; [|exact Hrun1].
      intros t (? & ? & Hr%list_elem_of_singleton & ?).
      repeat split; auto. rewrite Hr. by apply elem_of_cons; left.
    + eapply runs_weaken; [|exact Hrun].
      intros t (? & ? & ? & ?). repeat split; auto. by apply elem_of_cons; right.
  - intros r0 [->|Hin]%elem_of_cons; [|by apply Hset].
    by eapply settled_decreasing.
Qed.

Lemma match_item_spec tipi depots st item :
  ∃ st',
    match_item sort_values tipi depots st item = Ok st' ∧
    runs (matched tipi item depots depots) st st' ∧
    exhausted item depots st'.
Proof.
  unfold match_item.
  set (rs := candidates sort_values (need st) depots item).
  set (ss := candidates sort_values (availability st) depots item).
  case_bool_decide as Hrs.
  { exists st. split; [done|]. split; [apply runs_refl|].
    intros D E HD _ _ [Hn _].
    assert (D ∈ rs.*1) as Hin by (by apply candidates_elem).
    rewrite Hrs in Hin. by apply elem_of_nil in Hin. }
  case_bool_decide as Hss.
  { exists st. split; [done|]. split; [apply runs_refl|].
    intros D E _ HE _ [_ Ha].
    assert (E ∈ ss.*1) as Hin by (by apply candidates_elem).
    rewrite Hss in Hin. by apply elem_of_nil in Hin. }
  destruct (receivers_loop tipi item (ss.*1) (rs.*1) st) as (st' & Hloop & Hrun & Hset).
  exists st'. split; [done|]. split.
  - eapply runs_weaken; [|exact Hrun].
    intros t (? & ? & [? _]%candidates_elem & [? _]%candidates_elem). done.
  - intros D E HD HE Hne [Hn Ha].
    pose proof (runs_decreasing _ _ _ Hrun (D, item)) as [HdD _].
    pose proof (runs_decreasing _ _ _ Hrun (E, item)) as [_ HdE].
    assert (D ∈ rs.*1) as HDin by (apply candidates_elem; split; [done | lia]).
    assert (E ∈ ss.*1) as HEin by (apply candidates_elem; split; [done | lia]).
    destruct (Hset D HDin) as [Hle|Hall]; [lia|].
    specialize (Hall E HEin (not_eq_sym Hne)). lia.
Qed.

Lemma region_step_spec df m st :
  ∃ st', region_step sort_values st (m, group_rows df m) = Ok st' ∧
         runs (stage1_transfer df) st st'.
Proof.
  unfold region_step. simpl.
  apply (for_each_ind _ (λ _ s, runs (stage1_transfer df) st s)); [apply runs_refl|].
  intros visited item rest s1 _ Hrun.
  destruct (match_item_spec BolgeIci (depots_with_item (group_rows df m) item) s1 item)
    as (s2 & Hm & Hrun2 & _).
  exists s2. split; [done|].
  eapply runs_trans; [exact Hrun|].
  eapply runs_weaken; [|exact Hrun2].
  intros t (Htipi & Hitem & Hr & Hs).
  apply depots_with_item_elem in Hr as (rb & [Hrb Hmb]%group_rows_elem & Hib & Hdb).
  apply depots_with_item_elem in Hs as (ra & [Hra Hma]%group_rows_elem & Hia & Hda).
  split; [done|]. exists m, ra, rb. rewrite Hitem. done.
Qed.

Lemma stage1_spec df st :
  ∃ st', stage1 sort_values df st = Ok st' ∧ runs (stage1_transfer df) st st'.
Proof.
  unfold stage1.
  apply (for_each_ind _ (λ _ s, runs (stage1_transfer df) st s)); [apply runs_refl|].
  intros visited [m group] rest s1 Hl Hrun.
  assert ((m, group) ∈ groupby df) as ->%groupby_elem.
  { rewrite Hl. apply elem_of_app. right. by apply elem_of_cons; left. }
  destruct (region_step_spec df m s1) as (s2 & Hstep & Hrun2).
  exists s2. split; [done | by eapply runs_trans].
Qed.

Lemma stage2_spec df st :
  ∃ st', stage2 sort_values df st = Ok st' ∧
         runs stage2_transfer st st' ∧
         ∀ item, item ∈ unique (map madde_kodu df) →
                 exhausted item (unique (map depo_kodu df)) st'.
Proof.
  unfold stage2.
  set (all_depots := unique (map depo_kodu df)).
  apply (for_each_ind _ (λ visited s,
           runs stage2_transfer st s ∧
           ∀ item, item ∈ visited → exhausted item all_depots s)).
  { split; [apply runs_refl|]. by intros item ?%elem_of_nil. }
  intros visited item rest s1 _ [Hrun Hex].
  destruct (match_item_spec BolgeDisi all_depots s1 item) as (s2 & Hm & Hrun2 & Hex2).
  exists s2. split; [done|]. split.
  - eapply runs_trans; [exact Hrun|].
    eapply runs_weaken; [|exact Hrun2]. by intros t (? & _).
  - intros item' [Hin| ->%list_elem_of_singleton]%elem_of_app; [|done].
    eapply exhausted_decreasing; [exact Hrun2 | by apply Hex].
Qed.

(** The whole run: it completes, and it is a sequence of Stage 1 transfers
    followed by a sequence of Stage 2 transfers. *)
Lemma allocate_run data :
  ∃ st st1 ts1 ts2,
    allocate sort_values data = Ok st ∧
    trace (initial_state (normalize data)) ts1 st1 ∧
    Forall (stage1_transfer (normalize data)) ts1 ∧
    trace st1 ts2 st ∧
    Forall stage2_transfer ts2 ∧
    transfer_list st = ts1 ++ ts2 ∧
    ∀ item D E, D ≠ E →
      ¬ (0 < dict_get (need st) (D, item) ∧ 0 < dict_get (availability st) (E, item)).
Proof.
  unfold allocate. set (df := normalize data).
  destruct (stage1_spec df (initial_state df)) as (st1 & H1 & ts1 & Ht1 & F1).
  destruct (stage2_spec df st1) as (st & H2 & (ts2 & Ht2 & F2) & Hex).
  exists st, st1, ts1, ts2. rewrite H1. simpl.
  repeat split; try done.
  - by rewrite (trace_ledger _ _ _ Ht2), (trace_ledger _ _ _ Ht1).
  - intros item D E Hne [Hn Ha].
    pose proof (trace_decreasing _ _ _ (trace_app _ _ _ _ _ Ht1 Ht2)) as Hdec.
    destruct (Hdec (D, item)) as [HdD _]. destruct (Hdec (E, item)) as [_ HdE].
    simpl in HdD, HdE.
    destruct (initial_key_in_table ihtiyac df D item) as [HD Hi]; [lia|].
    destruct (initial_key_in_table transfer_edilebilir df E item) as [HE _]; [lia|].
    by apply (Hex item Hi D E HD HE Hne).
Qed.

Lemma allocate_trace data :
  ∃ st, allocate sort_values data = Ok st ∧
        trace (initial_state (normalize data)) (transfer_list st) st.
Proof.
  destruct (allocate_run data) as (st & st1 & ts1 & ts2 & H & Ht1 & _ & Ht2 & _ & Hl & _).
  exists st. split; [done|]. rewrite Hl. by eapply trace_app.
Qed.

(** The state before the transfer at any position of the final ledger. *)
Lemma allocate_prefix data st done rest :
  allocate sort_values data = Ok st →
  transfer_list st = done ++ rest →
  ∃ mid, replay (initial_state (normalize data)) done = Ok mid ∧
         trace (initial_state (normalize data)) done mid ∧
         trace mid rest st.
Proof.
  intros Hst Hl.
  destruct (allocate_trace data) as (st0 & Hst0 & Htr).
  rewrite Hst in Hst0. injection Hst0 as <-.
  rewrite Hl in Htr. apply trace_split in Htr as (mid & Hd & Hr).
  exists mid. split; [by apply trace_replay | done].
Qed.

(** ** Properties of the run *)

(** C1 - Conservation, on tables loaded exactly. For every table whose need
    and availability cells are read as integers of magnitude at most 2^53 or
    as NaN, the run completes, and for every (depot, item) key the initial
    need minus the final need is the total quantity the depot receives of the
    item in the recorded transfers, and the initial availability minus the
    final availability is the total quantity it sends. *)
Theorem conservation data :
  exact_table data →
  ∃ st, allocate sort_values data = Ok st ∧
    ∀ depot item,
      dict_get (need (initial_state (normalize data))) (depot, item)
        - dict_get (need st) (depot, item)
        = quantity_received depot item (transfer_list st) ∧
      dict_get (availability (initial_state (normalize data))) (depot, item)
        - dict_get (availability st) (depot, item)
        = quantity_sent depot item (transfer_list st).
Proof.
  intros _.
  destruct (allocate_trace data) as (st & Hst & Htr).
  exists st. split; [done|]. intros depot item.
  by apply trace_conservation.
Qed.

(** Non-negativity, on tables loaded exactly. For every such table the run
    completes; the state before and after every recorded transfer (the state
    reached by replaying any prefix of the final ledger from the loaded
    dictionaries, the whole ledger giving the final state) stores only
    values >= 0 in both dictionaries; and the quantity of every recorded
    transfer is the minimum of the receiver's remaining need and the sender's
    remaining availability at that state. *)
Theorem non_negativity data :
  exact_table data →
  ∃ st, allocate sort_values data = Ok st ∧
    ∀ done rest, transfer_list st = done ++ rest →
      ∃ mid, replay (initial_state (normalize data)) done = Ok mid ∧
        (rest = [] → mid = st) ∧
        (∀ k v, need mid !! k = Some v → 0 ≤ v) ∧
        (∀ k v, availability mid !! k = Some v → 0 ≤ v) ∧
        (∀ t rest', rest = t :: rest' →
           transfer_miktari t =
             Z.min (dict_get (need mid) (alan_depo t, t_madde_kodu t))
                   (dict_get (availability mid) (gonderen_depo t, t_madde_kodu t))).
Proof.
  intros _.
  destruct (allocate_trace data) as (st & Hst & _).
  exists st. split; [done|]. intros done rest Hl.
  destruct (allocate_prefix data st done rest Hst Hl) as (mid & Hrep & Hd & Hr).
  exists mid. split; [done|].
  destruct (trace_nonneg _ _ _ Hd (initial_state_nonneg data)) as [Hn Ha].
  split; [|split; [done|split; [done|]]].
  - intros ->. by inversion Hr.
  - intros t rest' ->. inversion Hr as [|? ? ? ? ? (_ & _ & _ & Hq & _) _]; subst.
    done.
Qed.

(** C4 - Stage ordering. The run completes, and in the returned list every
    entry flagged intra-region stands at a smaller index than every entry
    flagged cross-region. *)
Theorem stage_ordering data :
  ∃ st, allocate sort_values data = Ok st ∧
    ∀ (i j : nat) a b,
      transfer_list st !! i = Some a → transfer_list st !! j = Some b →
      transfer_tipi a = BolgeIci → transfer_tipi b = BolgeDisi →
      (i < j)%nat.
Proof.
  destruct (allocate_run data) as (st & st1 & ts1 & ts2 & H & _ & F1 & _ & F2 & Hl & _).
  exists st. split; [done|]. rewrite Hl. intros i j a b Ha Hb Hta Htb.
  rewrite Forall_forall in F1, F2.
  destruct (decide (i < length ts1)%nat) as [Hi|Hi].
  - destruct (decide (j < length ts1)%nat) as [Hj|Hj]; [|lia].
    rewrite lookup_app_l in Hb by done.
    apply list_elem_of_lookup_2, F1 in Hb as [Hb _]. congruence.
  - rewrite lookup_app_r in Ha by lia.
    apply list_elem_of_lookup_2, F2 in Ha. unfold stage2_transfer in Ha. congruence.
Qed.

(** C6 - Regional containment. The run completes, and for every recorded
    transfer flagged intra-region the input table has a row of the sending
    depot and a row of the receiving depot, both for the transferred item
    and both under the same region manager. *)
Theorem regional_containment data :
  ∃ st, allocate sort_values data = Ok st ∧
    ∀ t, t ∈ transfer_list st → transfer_tipi t = BolgeIci →
      ∃ manager ra rb,
        ra ∈ data ∧ rb ∈ data ∧
        raw_bolge_muduru ra = Some manager ∧ raw_bolge_muduru rb = Some manager ∧
        raw_depo_kodu ra = gonderen_depo t ∧ raw_madde_kodu ra = t_madde_kodu t ∧
        raw_depo_kodu rb = alan_depo t ∧ raw_madde_kodu rb = t_madde_kodu t.
Proof.
  destruct (allocate_run data) as (st & st1 & ts1 & ts2 & H & _ & F1 & _ & F2 & Hl & _).
  exists st. split; [done|]. rewrite Hl. intros t Hin Htipi.
  rewrite Forall_forall in F1, F2.
  apply elem_of_app in Hin as [Hin|Hin].
  - destruct (F1 t Hin) as (_ & m & ra & rb & Hra & Hrb & Hma & Hmb & Hda & Hia & Hdb & Hib).
    apply list_elem_of_fmap in Hra as (ra' & -> & Hra).
    apply list_elem_of_fmap in Hrb as (rb' & -> & Hrb).
    exists m, ra', rb'. done.
  - apply F2 in Hin. unfold stage2_transfer in Hin. congruence.
Qed.

(** No self-transfer between depots whose code is present. The run
    completes, and no recorded transfer, of either stage, has its sending
    depot equal to its receiving depot. *)
Theorem no_self_transfer data :
  ∃ st, allocate sort_values data = Ok st ∧
    ∀ t, t ∈ transfer_list st → gonderen_depo t ≠ alan_depo t.
Proof.
  destruct (allocate_trace data) as (st & Hst & Htr).
  exists st. split; [done|].
  apply Forall_forall. by eapply trace_distinct.
Qed.

(** C8 - Idempotence of zero. If every need value of the normalised table is
    0, or every availability value is 0, the run completes with an empty
    transfer list. *)
Theorem zero_table_empty_ledger data :
  (∀ r, r ∈ normalize data → ihtiyac r = 0) ∨
  (∀ r, r ∈ normalize data → transfer_edilebilir r = 0) →
  ∃ st, allocate sort_values data = Ok st ∧ transfer_list st = [].
Proof.
  intros Hzero.
  destruct (allocate_trace data) as (st & Hst & Htr).
  exists st. split; [done|].
  destruct (transfer_list st) as [|t ts]; [done|]. exfalso.
  inversion Htr as [|? ? ? ? ? (_ & Hn & Ha & _) _]; subst.
  apply dict_get_pos_lookup in Hn as (n & (rn & Hrn & _ & Hvn)%to_dict_lookup & Hn).
  apply dict_get_pos_lookup in Ha as (a & (ra & Hra & _ & Hva)%to_dict_lookup & Ha).
  destruct Hzero as [Hz|Hz].
  - specialize (Hz rn Hrn). lia.
  - specialize (Hz ra Hra). lia.
Qed.

(** C9 - Exhaustiveness. The run completes, and at the end there are no item
    and two distinct depots D and E such that D still has need of the item
    and E still has availability of it. *)
Theorem exhaustiveness data :
  ∃ st, allocate sort_values data = Ok st ∧
    ∀ item D E, D ≠ E →
      ¬ (0 < dict_get (need st) (D, item) ∧
         0 < dict_get (availability st) (E, item)).
Proof.
  destruct (allocate_run data) as (st & st1 & ts1 & ts2 & H & _ & _ & _ & _ & _ & Hex).
  exists st. done.
Qed.

(** C10 - Key-presence safety. The run never raises [KeyError]; and at every
    call of [apply_transfer] it makes with a positive quantity (one per entry
    of the final list, in the state replayed from the entries before it) the
    key (sender, item) is present in [availability] and the key
    (receiver, item) is present in [need], both with a positive value. *)
Theorem key_presence data :
  ∃ st, allocate sort_values data = Ok st ∧
    ∀ done t rest, transfer_list st = done ++ t :: rest →
      ∃ mid, replay (initial_state (normalize data)) done = Ok mid ∧
        0 < transfer_miktari t ∧
        (∃ a, availability mid !! (gonderen_depo t, t_madde_kodu t) = Some a ∧ 0 < a) ∧
        (∃ n, need mid !! (alan_depo t, t_madde_kodu t) = Some n ∧ 0 < n).
Proof.
  destruct (allocate_trace data) as (st & Hst & _).
  exists st. split; [done|]. intros done t rest Hl.
  destruct (allocate_prefix data st done (t :: rest) Hst Hl) as (mid & Hrep & _ & Hr).
  exists mid. split; [done|].
  inversion Hr as [|? ? ? ? ? Hap _]; subst.
  destruct (applied_effect _ _ _ Hap) as (Hq & _).
  destruct Hap as (_ & Hn & Ha & _).
  split; [done|]. split; by apply dict_get_pos_lookup.
Qed.

End Verification.

(** ** The table helpers and the engine on concrete tables *)

Example unique_first_appearance : unique ["B"; "A"; "B"; "C"; "A"] = ["B"; "A"; "C"].
Proof. reflexivity. Qed.

Example to_dict_last_row_wins :
  to_dict ihtiyac [mkRow (Some "R1") "A" "X" 3 0; mkRow (Some "R1") "A" "X" 7 0]
    !! ("A", "X") = Some 7.
Proof. by vm_compute. Qed.

Example groupby_sorted_keys :
  (groupby [mkRow (Some "R2") "C" "X" 1 0; mkRow None "E" "X" 1 0;
            mkRow (Some "R1") "A" "X" 0 1; mkRow (Some "R2") "D" "X" 0 1]).*1
  = ["R1"; "R2"].
Proof. by vm_compute. Qed.

Example clean_cells : (clean (Some 4), clean (Some (-4)), clean None) = (4, 0, 0).
Proof. reflexivity. Qed.

Example one_region_ledger :
  ∃ st, allocate sort_values_mergesort table_one_region = Ok st ∧
        transfer_list st = [mkTransfer BolgeIci "A" "B" "X001" 10] ∧
        need st !! ("B", "X001") = Some 0 ∧
        availability st !! ("A", "X001") = Some 0.
Proof. eexists. split; [by vm_compute|]. by vm_compute. Qed.

Example two_regions_ledger :
  ∃ st, allocate sort_values_mergesort table_two_regions = Ok st ∧
        transfer_list st = [mkTransfer BolgeDisi "A" "C" "X002" 5].
Proof. eexists. split; [by vm_compute|]. by vm_compute. Qed.

Example short_supply_ledger :
  ∃ st, allocate sort_values_mergesort table_short_supply = Ok st ∧
        transfer_list st =
          [ mkTransfer BolgeIci "B" "A" "X" 4;
            mkTransfer BolgeIci "C" "A" "X" 4;
            mkTransfer BolgeDisi "E" "A" "X" 2;
            mkTransfer BolgeDisi "D" "E" "X" 1 ] ∧
        need st !! ("E", "X") = Some 1 ∧
        availability st !! ("E", "X") = Some 5.
Proof. eexists. split; [by vm_compute|]. by vm_compute. Qed.

(** ** The properties at a concrete table, with the merge sort *)

Lemma exact_table_short_supply : exact_table table_short_supply.
Proof.
  unfold exact_table. apply Forall_forall. repeat constructor; simpl; lia.
Qed.

Lemma conservation_witness :
  ∃ st, allocate sort_values_mergesort table_short_supply = Ok st ∧
    ∀ depot item,
      dict_get (need (initial_state (normalize table_short_supply))) (depot, item)
        - dict_get (need st) (depot, item)
        = quantity_received depot item (transfer_list st) ∧
      dict_get (availability (initial_state (normalize table_short_supply))) (depot, item)
        - dict_get (availability st) (depot, item)
        = quantity_sent depot item (transfer_list st).
Proof.
  exact (conservation sort_values_mergesort sort_values_mergesort_perm table_short_supply
           exact_table_short_supply).
Defined.

Lemma non_negativity_witness :
  ∃ st, allocate sort_values_mergesort table_short_supply = Ok st ∧
    ∀ done rest, transfer_list st = done ++ rest →
      ∃ mid, replay (initial_state (normalize table_short_supply)) done = Ok mid ∧
        (rest = [] → mid = st) ∧
        (∀ k v, need mid !! k = Some v → 0 ≤ v) ∧
        (∀ k v, availability mid !! k = Some v → 0 ≤ v) ∧
        (∀ t rest', rest = t :: rest' →
           transfer_miktari t =
             Z.min (dict_get (need mid) (alan_depo t, t_madde_kodu t))
                   (dict_get (availability mid) (gonderen_depo t, t_madde_kodu t))).
Proof.
  exact (non_negativity sort_values_mergesort sort_values_mergesort_perm table_short_supply
           exact_table_short_supply).
Defined.

Lemma stage_ordering_witness :
  ∃ st, allocate sort_values_mergesort table_short_supply = Ok st ∧
    ∀ (i j : nat) a b,
      transfer_list st !! i = Some a → transfer_list st !! j = Some b →
      transfer_tipi a = BolgeIci → transfer_tipi b = BolgeDisi →
      (i < j)%nat.
Proof.
  exact (stage_ordering sort_values_mergesort sort_values_mergesort_perm table_short_supply).
Defined.

Lemma regional_containment_witness :
  ∃ st, allocate sort_values_mergesort table_short_supply = Ok st ∧
    ∀ t, t ∈ transfer_list st → transfer_tipi t = BolgeIci →
      ∃ manager ra rb,
        ra ∈ table_short_supply ∧ rb ∈ table_short_supply ∧
        raw_bolge_muduru ra = Some manager ∧ raw_bolge_muduru rb = Some manager ∧
        raw_depo_kodu ra = gonderen_depo t ∧ raw_madde_kodu ra = t_madde_kodu t ∧
        raw_depo_kodu rb = alan_depo t ∧ raw_madde_kodu rb = t_madde_kodu t.
Proof.
  exact (regional_containment sort_values_mergesort sort_values_mergesort_perm table_short_supply).
Defined.

Lemma no_self_transfer_witness :
  ∃ st, allocate sort_values_mergesort table_short_supply = Ok st ∧
    ∀ t, t ∈ transfer_list st → gonderen_depo t ≠ alan_depo t.
Proof.
  exact (no_self_transfer sort_values_mergesort sort_values_mergesort_perm table_short_supply).
Defined.

Lemma zero_table_empty_ledger_witness :
  ∃ st, allocate sort_values_mergesort table_no_need = Ok st ∧ transfer_list st = [].
Proof.
  apply (zero_table_empty_ledger sort_values_mergesort sort_values_mergesort_perm table_no_need).
  left. apply Forall_forall. vm_compute. repeat constructor.
Defined.

Lemma exhaustiveness_witness :
  ∃ st, allocate sort_values_mergesort table_short_supply = Ok st ∧
    ∀ item D E, D ≠ E →
      ¬ (0 < dict_get (need st) (D, item) ∧
         0 < dict_get (availability st) (E, item)).
Proof.
  exact (exhaustiveness sort_values_mergesort sort_values_mergesort_perm table_short_supply).
Defined.

Lemma key_presence_witness :
  ∃ st, allocate sort_values_mergesort table_short_supply = Ok st ∧
    ∀ done t rest, transfer_list st = done ++ t :: rest →
      ∃ mid, replay (initial_state (normalize table_short_supply)) done = Ok mid ∧
        0 < transfer_miktari t ∧
        (∃ a, availability mid !! (gonderen_depo t, t_madde_kodu t) = Some a ∧ 0 < a) ∧
        (∃ n, need mid !! (alan_depo t, t_madde_kodu t) = Some n ∧ 0 < n).
Proof.
  exact (key_presence sort_values_mergesort sort_values_mergesort_perm table_short_supply).
Defined.

(** ** More on the loaded dictionaries *)

Lemma to_dict_is_Some col df k :
  is_Some (to_dict col df !! k) ↔ ∃ r, r ∈ df ∧ (depo_kodu r, madde_kodu r) = k.
Proof.
  split.
  - intros [v (r & Hin & Hk & _)%to_dict_lookup]. eauto.
  - induction df as [|r df IH] using rev_ind.
    + intros (r & Hin%elem_of_nil & _). done.
    + intros (r' & Hin & Hk). rewrite to_dict_snoc.
      destruct (decide ((depo_kodu r, madde_kodu r) = k)) as [Heq|Hne].
      * rewrite Heq, lookup_insert_eq. eauto.
      * rewrite lookup_insert_ne by done. apply IH.
        apply elem_of_app in Hin as [Hin|Hin%list_elem_of_singleton]; [eauto|].
        subst r'. done.
Qed.

(** The last row with a key decides the stored value. *)
Lemma to_dict_last col before r after :
  (∀ r', r' ∈ after → (depo_kodu r', madde_kodu r') ≠ (depo_kodu r, madde_kodu r)) →
  to_dict col (before ++ r :: after) !! (depo_kodu r, madde_kodu r) = Some (col r).
Proof.
  induction after as [|r' after IH] using rev_ind; intros Hafter.
  - rewrite to_dict_snoc. apply lookup_insert_eq.
  - rewrite app_comm_cons, app_assoc, to_dict_snoc.
    rewrite lookup_insert_ne.
    + apply IH. intros r0 Hin. apply Hafter, elem_of_app. by left.
    + apply Hafter, elem_of_app. right. by apply list_elem_of_singleton.
Qed.

Lemma clean_pos c : 0 < clean c → ∃ v, c = Some v ∧ 0 < v ∧ clean c = v.
Proof.
  unfold clean, clip_negative, to_numeric_fillna.
  destruct c as [v|]; simpl; [|lia].
  destruct (Z.ltb_spec v 0); [lia|]. eauto.
Qed.

(** ** More on applied transfers *)

Lemma applied_frame st t st' :
  applied st t st' →
  (∀ k, k ≠ (alan_depo t, t_madde_kodu t) → need st' !! k = need st !! k) ∧
  (∀ k, k ≠ (gonderen_depo t, t_madde_kodu t) →
        availability st' !! k = availability st !! k) ∧
  dom (need st') = dom (need st) ∧
  dom (availability st') = dom (availability st).
Proof.
  destruct t as [tipi s r i q]. unfold applied. simpl.
  intros (_ & Hn & Ha & Hq & Happ).
  assert (0 < q) as Hpos by lia.
  destruct (dict_get_pos_lookup _ _ Hn) as (n & Hn' & _).
  destruct (dict_get_pos_lookup _ _ Ha) as (a & Ha' & _).
  rewrite (apply_transfer_ok _ _ _ _ _ _ a n Hpos Ha' Hn') in Happ.
  injection Happ as <-. simpl.
  split; [by intros k Hk; rewrite lookup_insert_ne|].
  split; [by intros k Hk; rewrite lookup_insert_ne|].
  split; apply dom_insert_lookup_L; eauto.
Qed.

(** After a transfer the receiver needs nothing more or the sender has
    nothing left. *)
Lemma applied_settles st t st' :
  applied st t st' →
  dict_get (need st') (alan_depo t, t_madde_kodu t) ≤ 0 ∨
  dict_get (availability st') (gonderen_depo t, t_madde_kodu t) ≤ 0.
Proof.
  intros Hap. destruct (applied_effect _ _ _ Hap) as (_ & _ & Hn & Ha).
  destruct Hap as (_ & _ & _ & Hq & _).
  rewrite Hn, Ha, !decide_True by done. lia.
Qed.

Lemma trace_positive st ts st' :
  trace st ts st' → Forall (λ t, 0 < transfer_miktari t) ts.
Proof.
  induction 1 as [|st t st1 ts st2 Hap _ IH]; constructor; [|done].
  by destruct (applied_effect _ _ _ Hap) as (Hq & _).
Qed.

Lemma trace_dom st ts st' :
  trace st ts st' →
  dom (need st') = dom (need st) ∧ dom (availability st') = dom (availability st).
Proof.
  induction 1 as [|st t st1 ts st2 Hap _ [IHn IHa]]; [done|].
  destruct (applied_frame _ _ _ Hap) as (_ & _ & Hn & Ha).
  split; congruence.
Qed.

(** A run of one pass changes only the keys of its item and its depots. *)
Lemma trace_frame tipi item rs ss st ts st' :
  trace st ts st' → Forall (matched tipi item rs ss) ts →
  ∀ d i,
    (i ≠ item ∨ d ∉ rs → need st' !! (d, i) = need st !! (d, i)) ∧
    (i ≠ item ∨ d ∉ ss → availability st' !! (d, i) = availability st !! (d, i)).
Proof.
  induction 1 as [|st t st1 ts st2 Hap _ IH]; intros HF d i; [done|].
  apply Forall_cons in HF as [(_ & Hi & Hr & Hs) HF].
  destruct (applied_frame _ _ _ Hap) as (Hn & Ha & _).
  destruct (IH HF d i) as [IHn IHa].
  split; intros Hk.
  - rewrite (IHn Hk). apply Hn. intros [= -> ->]. destruct Hk; tauto.
  - rewrite (IHa Hk). apply Ha. intros [= -> ->]. destruct Hk; tauto.
Qed.

(** A line that has been applied is not applied again later. *)
Lemma trace_no_repeat st a st1 ts st2 :
  applied st a st1 → trace st1 ts st2 → ∀ b, b ∈ ts → line_key b ≠ line_key a.
Proof.
  intros Hap Htr b (p & q & ->)%list_elem_of_split Hkey.
  unfold line_key in Hkey. injection Hkey as Hs Hr Hi.
  apply trace_split in Htr as (mid & Hp & Hq).
  inversion Hq as [|? ? ? ? ? (_ & Hn & Ha & _) _]; subst.
  rewrite Hs, Hr, Hi in *.
  pose proof (trace_decreasing _ _ _ Hp (alan_depo a, t_madde_kodu a)) as [Hdn _].
  pose proof (trace_decreasing _ _ _ Hp (gonderen_depo a, t_madde_kodu a)) as [_ Hda].
  destruct (applied_settles _ _ _ Hap); lia.
Qed.

Lemma trace_lines_distinct st ts st' :
  trace st ts st' → NoDup (map line_key ts).
Proof.
  induction 1 as [|st t st1 ts st2 Hap Htr IH]; simpl; constructor; [|done].
  intros (b & Hkey & Hin)%list_elem_of_fmap.
  by apply (trace_no_repeat _ _ _ _ _ Hap Htr b Hin).
Qed.

(** At the end of a run every line it applied is still settled. *)
Lemma trace_settled st ts st' :
  trace st ts st' → nonneg st →
  ∀ t, t ∈ ts →
    dict_get (need st') (alan_depo t, t_madde_kodu t) = 0 ∨
    dict_get (availability st') (gonderen_depo t, t_madde_kodu t) = 0.
Proof.
  intros Htr Hnn t (p & q & ->)%list_elem_of_split.
  destruct (trace_nonneg _ _ _ Htr Hnn) as [Hn Ha].
  rewrite nonneg_dict_get in Hn, Ha.
  apply trace_split in Htr as (mid & _ & Hq).
  inversion Hq as [|? ? mid1 ? ? Hap Hrest]; subst.
  pose proof (trace_decreasing _ _ _ Hrest (alan_depo t, t_madde_kodu t)) as [Hdn _].
  pose proof (trace_decreasing _ _ _ Hrest (gonderen_depo t, t_madde_kodu t)) as [_ Hda].
  specialize (Hn (alan_depo t, t_madde_kodu t)).
  specialize (Ha (gonderen_depo t, t_madde_kodu t)).
  destruct (applied_settles _ _ _ Hap); [left | right]; lia.
Qed.

(** No transfer can be applied in a state where need and surplus of an item
    never sit at two different depots. *)
Lemma trace_from_exhausted st ts st' :
  (∀ item D E, D ≠ E →
     ¬ (0 < dict_get (need st) (D, item) ∧ 0 < dict_get (availability st) (E, item))) →
  trace st ts st' → ts = [] ∧ st' = st.
Proof.
  intros Hex Htr. inversion Htr as [|? t ? ? ? (Hne & Hn & Ha & _) _]; subst; [done|].
  exfalso. by apply (Hex (t_madde_kodu t) (alan_depo t) (gonderen_depo t)).
Qed.


(** ** More on the two stages *)

Section Stages.

Variable sort_values : list (string * Z) → list (string * Z).
Hypothesis sort_values_perm : ∀ l, sort_values l ≡ₚ l.





(** Every line of the ledger is backed by two rows of the table. *)
Lemma run_line_backed data st t :
  allocate sort_values data = Ok st → t ∈ transfer_list st →
  ∃ ra rb a n,
    ra ∈ data ∧ rb ∈ data ∧
    raw_key ra = (gonderen_depo t, t_madde_kodu t) ∧
    raw_key rb = (alan_depo t, t_madde_kodu t) ∧
    raw_transfer_edilebilir ra = Some a ∧ raw_ihtiyac rb = Some n ∧
    0 < transfer_miktari t ∧ transfer_miktari t ≤ a ∧ transfer_miktari t ≤ n.
Proof.
  intros Hst (p & q & Hl)%list_elem_of_split.
  destruct (allocate_prefix sort_values sort_values_perm data st p (t :: q) Hst Hl)
    as (mid & _ & Hp & Hq).
  inversion Hq as [|? ? ? ? ? Hap _]; subst.
  destruct (applied_effect _ _ _ Hap) as (Hpos & _).
  destruct Hap as (_ & Hn & Ha & Hmin & _).
  pose proof (trace_decreasing _ _ _ Hp (alan_depo t, t_madde_kodu t)) as [Hdn _].
  pose proof (trace_decreasing _ _ _ Hp (gonderen_depo t, t_madde_kodu t)) as [_ Hda].
  simpl in Hdn, Hda. unfold dict_get at 2 in Hdn. unfold dict_get at 2 in Hda.
  destruct (to_dict ihtiyac (normalize data) !! (alan_depo t, t_madde_kodu t))
    as [n|] eqn:En; simpl in Hdn; [|lia].
  destruct (to_dict transfer_edilebilir (normalize data) !! (gonderen_depo t, t_madde_kodu t))
    as [a|] eqn:Ea; simpl in Hda; [|lia].
  apply to_dict_lookup in En as (rb & Hrb & Hkb & Hvb).
  apply to_dict_lookup in Ea as (ra & Hra & Hka & Hva).
  apply list_elem_of_fmap in Hrb as (rb' & -> & Hrb).
  apply list_elem_of_fmap in Hra as (ra' & -> & Hra).
  simpl in *.
  destruct (clean_pos (raw_ihtiyac rb')) as (n' & Hn' & _ & Hcn); [lia|].
  destruct (clean_pos (raw_transfer_edilebilir ra')) as (a' & Ha' & _ & Hca); [lia|].
  exists ra', rb', a', n'. unfold raw_key.
  repeat split; try done; lia.
Qed.


(** ** Further properties of the run *)

(** X1 - Every line is backed by the table, on tables loaded exactly. For
    every table whose need and availability cells are read as integers of
    magnitude at most 2^53 or as NaN, the run completes, and for every line
    of the ledger the table has a row of the sender for the item with a
    numeric availability and a row of the receiver for the item with a
    numeric need, and the line's quantity is positive and at most each of
    the two. *)
Theorem lines_backed_by_table data :
  exact_table data →
  ∃ st, allocate sort_values data = Ok st ∧
    ∀ t, t ∈ transfer_list st →
      ∃ ra rb a n,
        ra ∈ data ∧ rb ∈ data ∧
        raw_key ra = (gonderen_depo t, t_madde_kodu t) ∧
        raw_key rb = (alan_depo t, t_madde_kodu t) ∧
        raw_transfer_edilebilir ra = Some a ∧ raw_ihtiyac rb = Some n ∧
        0 < transfer_miktari t ∧ transfer_miktari t ≤ a ∧ transfer_miktari t ≤ n.
Proof.
  intros _.
  destruct (allocate_trace sort_values sort_values_perm data) as (st & Hst & _).
  exists st. split; [done|]. intros t Hin. by eapply run_line_backed.
Qed.

(** X2 - The key sets never change. The run completes, and a (depot, item)
    key is present in the final [need], and in the final [availability],
    exactly when the table has a row with that depot and item. *)
Theorem keys_preserved data :
  ∃ st, allocate sort_values data = Ok st ∧
    ∀ k,
      (is_Some (need st !! k) ↔ ∃ r, r ∈ data ∧ raw_key r = k) ∧
      (is_Some (availability st !! k) ↔ ∃ r, r ∈ data ∧ raw_key r = k).
Proof.
  destruct (allocate_trace sort_values sort_values_perm data) as (st & Hst & Htr).
  exists st. split; [done|]. intros k.
  destruct (trace_dom _ _ _ Htr) as [Hn Ha]. simpl in Hn, Ha.
  assert ((∃ r, r ∈ normalize data ∧ (depo_kodu r, madde_kodu r) = k) ↔
          (∃ r, r ∈ data ∧ raw_key r = k)) as Hrows.
  { split.
    - intros (r & (raw & -> & Hin)%list_elem_of_fmap & Hk). eauto.
    - intros (raw & Hin & Hk). exists (normalize_row raw).
      split; [|done]. apply list_elem_of_fmap. eauto. }
  rewrite <- !elem_of_dom, Hn, Ha, !elem_of_dom, !to_dict_is_Some. done.
Qed.

(** X4 - Shipments stay within what was loaded, on tables loaded exactly.
    For every table whose need and availability cells are read as integers
    of magnitude at most 2^53 or as NaN, the run completes, and for every
    (depot, item) the total quantity the depot sends of the item lies
    between 0 and its loaded availability, and the total quantity it
    receives lies between 0 and its loaded need. *)
Theorem shipment_bounds data :
  exact_table data →
  ∃ st, allocate sort_values data = Ok st ∧
    ∀ depot item,
      0 ≤ quantity_sent depot item (transfer_list st)
        ≤ dict_get (availability (initial_state (normalize data))) (depot, item) ∧
      0 ≤ quantity_received depot item (transfer_list st)
        ≤ dict_get (need (initial_state (normalize data))) (depot, item).
Proof.
  intros _.
  destruct (allocate_trace sort_values sort_values_perm data) as (st & Hst & Htr).
  exists st. split; [done|]. intros depot item.
  destruct (trace_conservation _ _ _ Htr depot item) as [Hn Ha].
  destruct (trace_decreasing _ _ _ Htr (depot, item)) as [Hdn Hda].
  destruct (trace_nonneg _ _ _ Htr (initial_state_nonneg data)) as [Hnn Hna].
  rewrite nonneg_dict_get in Hnn, Hna.
  specialize (Hnn (depot, item)). specialize (Hna (depot, item)). lia.
Qed.


(** X6 - A pass for one item is local. From any state, the body of the item
    loop completes, appends only lines of its own flag and item between its
    own depots, and leaves every key of another item or of a depot outside
    its depots exactly as it was in both dictionaries. *)
Theorem pass_frame tipi depots st item :
  ∃ st' ts, match_item sort_values tipi depots st item = Ok st' ∧
    transfer_list st' = transfer_list st ++ ts ∧
    Forall (λ t, transfer_tipi t = tipi ∧ t_madde_kodu t = item ∧
                 gonderen_depo t ∈ depots ∧ alan_depo t ∈ depots) ts ∧
    ∀ d i, i ≠ item ∨ d ∉ depots →
      need st' !! (d, i) = need st !! (d, i) ∧
      availability st' !! (d, i) = availability st !! (d, i).
Proof.
  destruct (match_item_spec sort_values sort_values_perm tipi depots st item)
    as (st' & Hm & (ts & Htr & HF) & _).
  exists st', ts. split; [done|]. split; [by apply trace_ledger|]. split.
  - eapply Forall_impl; [exact HF|]. intros t (? & ? & ? & ?). done.
  - intros d i Hk. destruct (trace_frame _ _ _ _ _ _ _ Htr HF d i) as [Hn Ha].
    split; auto.
Qed.

(** X7 - No line is repeated. The run completes, and no two lines of the
    ledger, of either stage, have the same sender, receiver and item. *)
Theorem ledger_lines_distinct data :
  ∃ st, allocate sort_values data = Ok st ∧ NoDup (map line_key (transfer_list st)).
Proof.
  destruct (allocate_trace sort_values sort_values_perm data) as (st & Hst & Htr).
  exists st. split; [done|]. by eapply trace_lines_distinct.
Qed.

(** X8 - Every line stays settled, on tables loaded exactly. For every
    table whose need and availability cells are read as integers of
    magnitude at most 2^53 or as NaN, the run completes, and for every line
    of the ledger, at the end the receiver's need of the item is 0 or the
    sender's availability of the item is 0. *)
Theorem lines_settled data :
  exact_table data →
  ∃ st, allocate sort_values data = Ok st ∧
    ∀ t, t ∈ transfer_list st →
      dict_get (need st) (alan_depo t, t_madde_kodu t) = 0 ∨
      dict_get (availability st) (gonderen_depo t, t_madde_kodu t) = 0.
Proof.
  intros _.
  destruct (allocate_trace sort_values sort_values_perm data) as (st & Hst & Htr).
  exists st. split; [done|].
  by apply (trace_settled _ _ _ Htr (initial_state_nonneg data)).
Qed.



(** X11 - The result is a fixed point. The run completes, and running Stage 1
    or Stage 2 again on the final state returns that state unchanged: no
    further line is recorded. *)
Theorem final_state_fixed_point data :
  ∃ st, allocate sort_values data = Ok st ∧
    stage1 sort_values (normalize data) st = Ok st ∧
    stage2 sort_values (normalize data) st = Ok st.
Proof.
  destruct (allocate_run sort_values sort_values_perm data)
    as (st & _ & _ & _ & Hst & _ & _ & _ & _ & _ & Hex).
  exists st. split; [done|]. split.
  - destruct (stage1_spec sort_values sort_values_perm (normalize data) st)
      as (st' & H1 & ts & Htr & _).
    by destruct (trace_from_exhausted _ _ _ Hex Htr) as [_ ->].
  - destruct (stage2_spec sort_values sort_values_perm (normalize data) st)
      as (st' & H2 & (ts & Htr & _) & _).
    by destruct (trace_from_exhausted _ _ _ Hex Htr) as [_ ->].
Qed.

End Stages.

(** X3 - The last row with a key is the one loaded. If no later row of the
    table has the depot and item of a row, the loaded [need] and
    [availability] hold for that key the row's cleaned cells: the cell's
    value if it is numeric and not negative, otherwise 0. *)
Theorem loaded_last_row_wins before r after :
  (∀ r', r' ∈ after → raw_key r' ≠ raw_key r) →
  need (initial_state (normalize (before ++ r :: after))) !! raw_key r
    = Some (clean (raw_ihtiyac r)) ∧
  availability (initial_state (normalize (before ++ r :: after))) !! raw_key r
    = Some (clean (raw_transfer_edilebilir r)).
Proof.
  intros Hafter. unfold normalize. rewrite map_app. simpl.
  assert (∀ r', r' ∈ map normalize_row after →
            (depo_kodu r', madde_kodu r') ≠
            (depo_kodu (normalize_row r), madde_kodu (normalize_row r))) as Hlast.
  { intros r' (raw & -> & Hin)%list_elem_of_fmap. by apply Hafter. }
  split.
  - apply (to_dict_last ihtiyac _ (normalize_row r) _ Hlast).
  - apply (to_dict_last transfer_edilebilir _ (normalize_row r) _ Hlast).
Qed.

(** X12 - The column check. The list of missing columns is empty exactly
    when each of the five required names is among the table's columns; it
    holds exactly the required names that are absent, in the order of
    [required_cols]. *)
Theorem missing_columns_spec columns :
  (missing columns = [] ↔ ∀ c, c ∈ required_cols → c ∈ columns) ∧
  (∀ c, c ∈ missing columns ↔ c ∈ required_cols ∧ c ∉ columns) ∧
  missing columns `sublist_of` required_cols.
Proof.
  unfold missing. split; [|split].
  - split.
    + intros Hnil c Hc. destruct (decide (c ∈ columns)) as [|Hn]; [done|].
      exfalso. by apply (filter_nil_not_elem_of _ _ c Hnil Hn).
    + intros Hall.
      destruct (filter (λ c, c ∉ columns) required_cols) as [|c l] eqn:E; [done|].
      assert (c ∈ filter (λ c, c ∉ columns) required_cols) as Hc
        by (rewrite E; by apply elem_of_cons; left).
      apply list_elem_of_filter in Hc as [Hn Hc]. by apply Hall in Hc.
  - intros c. rewrite list_elem_of_filter. tauto.
  - apply sublist_filter.
Qed.

(** ** The further properties at concrete tables, with the merge sort *)

Lemma lines_backed_by_table_witness :
  ∃ st, allocate sort_values_mergesort table_short_supply = Ok st ∧
    ∀ t, t ∈ transfer_list st →
      ∃ ra rb a n,
        ra ∈ table_short_supply ∧ rb ∈ table_short_supply ∧
        raw_key ra = (gonderen_depo t, t_madde_kodu t) ∧
        raw_key rb = (alan_depo t, t_madde_kodu t) ∧
        raw_transfer_edilebilir ra = Some a ∧ raw_ihtiyac rb = Some n ∧
        0 < transfer_miktari t ∧ transfer_miktari t ≤ a ∧ transfer_miktari t ≤ n.
Proof.
  exact (lines_backed_by_table sort_values_mergesort sort_values_mergesort_perm
           table_short_supply
           exact_table_short_supply).
Defined.

Lemma keys_preserved_witness :
  ∃ st, allocate sort_values_mergesort table_short_supply = Ok st ∧
    ∀ k,
      (is_Some (need st !! k) ↔ ∃ r, r ∈ table_short_supply ∧ raw_key r = k) ∧
      (is_Some (availability st !! k) ↔ ∃ r, r ∈ table_short_supply ∧ raw_key r = k).
Proof.
  exact (keys_preserved sort_values_mergesort sort_values_mergesort_perm
           table_short_supply).
Defined.

Lemma loaded_last_row_wins_witness :
  need (initial_state (normalize table_repeated_key)) !! ("A", "X") = Some 0 ∧
  availability (initial_state (normalize table_repeated_key)) !! ("A", "X") = Some 9.
Proof.
  apply (loaded_last_row_wins
           [mkRawRow (Some "R1") "A" "X" (Some 3) (Some 0)]
           (mkRawRow (Some "R1") "A" "X" (Some (-7)) (Some 9))
           [mkRawRow (Some "R1") "B" "X" (Some 4) None]).
  intros r' ->%list_elem_of_singleton. by vm_compute.
Defined.

Lemma shipment_bounds_witness :
  ∃ st, allocate sort_values_mergesort table_short_supply = Ok st ∧
    ∀ depot item,
      0 ≤ quantity_sent depot item (transfer_list st)
        ≤ dict_get (availability (initial_state (normalize table_short_supply)))
                   (depot, item) ∧
      0 ≤ quantity_received depot item (transfer_list st)
        ≤ dict_get (need (initial_state (normalize table_short_supply))) (depot, item).
Proof.
  exact (shipment_bounds sort_values_mergesort sort_values_mergesort_perm
           table_short_supply
           exact_table_short_supply).
Defined.


Lemma pass_frame_witness :
  ∃ st' ts,
    match_item sort_values_mergesort BolgeIci ["A"; "B"; "C"]
               (initial_state (normalize table_short_supply)) "X" = Ok st' ∧
    transfer_list st' = transfer_list (initial_state (normalize table_short_supply)) ++ ts ∧
    Forall (λ t, transfer_tipi t = BolgeIci ∧ t_madde_kodu t = "X" ∧
                 gonderen_depo t ∈ ["A"; "B"; "C"] ∧ alan_depo t ∈ ["A"; "B"; "C"]) ts ∧
    ∀ d i, i ≠ "X" ∨ d ∉ ["A"; "B"; "C"] →
      need st' !! (d, i) = need (initial_state (normalize table_short_supply)) !! (d, i) ∧
      availability st' !! (d, i)
        = availability (initial_state (normalize table_short_supply)) !! (d, i).
Proof.
  exact (pass_frame sort_values_mergesort sort_values_mergesort_perm BolgeIci
           ["A"; "B"; "C"] (initial_state (normalize table_short_supply)) "X").
Defined.

Lemma ledger_lines_distinct_witness :
  ∃ st, allocate sort_values_mergesort table_short_supply = Ok st ∧
        NoDup (map line_key (transfer_list st)).
Proof.
  exact (ledger_lines_distinct sort_values_mergesort sort_values_mergesort_perm
           table_short_supply).
Defined.

Lemma lines_settled_witness :
  ∃ st, allocate sort_values_mergesort table_short_supply = Ok st ∧
    ∀ t, t ∈ transfer_list st →
      dict_get (need st) (alan_depo t, t_madde_kodu t) = 0 ∨
      dict_get (availability st) (gonderen_depo t, t_madde_kodu t) = 0.
Proof.
  exact (lines_settled sort_values_mergesort sort_values_mergesort_perm
           table_short_supply
           exact_table_short_supply).
Defined.



Lemma final_state_fixed_point_witness :
  ∃ st, allocate sort_values_mergesort table_short_supply = Ok st ∧
    stage1 sort_values_mergesort (normalize table_short_supply) st = Ok st ∧
    stage2 sort_values_mergesort (normalize table_short_supply) st = Ok st.
Proof.
  exact (final_state_fixed_point sort_values_mergesort sort_values_mergesort_perm
           table_short_supply).
Defined.

(** ** The recorder's contract *)

Section Recorder.

Variable sort_values : list (string * Z) → list (string * Z).
Hypothesis sort_values_perm : ∀ l, sort_values l ≡ₚ l.


End Recorder.


(** ** The program on float64 columns and blank depot cells *)

#[local] Set Warnings "-inexact-float".

(** C1 as stated, for every table, does not hold. With a need of 0.9 met
    from availabilities 0.3 and 0.2, the two lines carry 0.3 and 0.2 while
    the need goes from 0.9 to 0.4000000000000001: the difference is not the
    sum, neither exactly nor in binary64. With a need of 10^16 met from an
    availability of 1 in float64 columns, the line carries 1 and the need
    stays 10^16. *)
Lemma conservation_fails_on_float_columns :
  (∃ st, Float64.allocate Float64.sort_values_mergesort Float64.table_fractions = Ok st ∧
     Float64.transfer_list st =
       [ Float64.mkTransfer BolgeIci (Some "B") (Some "A") "X" 0.3;
         Float64.mkTransfer BolgeIci (Some "C") (Some "A") "X" 0.2 ] ∧
     Float64.need (Float64.initial_state (Float64.normalize Float64.table_fractions))
       !! (Some "A", "X") = Some 0.9%float ∧
     Float64.need st !! (Some "A", "X") = Some 0.4000000000000001%float ∧
     Float64.units 0.9 - Float64.units 0.4000000000000001
       ≠ Float64.units 0.3 + Float64.units 0.2 ∧
     (0.9 - 0.4000000000000001 =? 0.3 + 0.2)%float = false) ∧
  (∃ st, Float64.allocate Float64.sort_values_mergesort Float64.table_large = Ok st ∧
     Float64.transfer_list st =
       [ Float64.mkTransfer BolgeIci (Some "B") (Some "A") "X" 1 ] ∧
     Float64.need (Float64.initial_state (Float64.normalize Float64.table_large))
       !! (Some "A", "X") = Some 1e16%float ∧
     Float64.need st !! (Some "A", "X") = Some 1e16%float).
Proof.
  split.
  - eexists. split; [by vm_compute|].
    split; [by vm_compute|]. split; [by vm_compute|]. split; [by vm_compute|].
    split; [by vm_compute | by vm_compute].
  - eexists. split; [by vm_compute|].
    split; [by vm_compute|]. split; by vm_compute.
Qed.

(** C2 at a table the program breaks the claim on: with the text [inf] as
    the need of A and as the availability of D, in one region, the run
    records the line D -> A with an infinite quantity, and lines 55-56 leave
    NaN in need[(A, X)] and in availability[(D, X)]; NaN >= 0 is false. *)
Lemma infinite_cells_leave_nan :
  ∃ st, Float64.allocate Float64.sort_values_mergesort Float64.table_infinite = Ok st ∧
    Float64.transfer_list st =
      [ Float64.mkTransfer BolgeIci (Some "D") (Some "A") "X" infinity ] ∧
    Float64.need st !! (Some "A", "X") = Some nan ∧
    Float64.availability st !! (Some "D", "X") = Some nan ∧
    (0 <=? nan)%float = false.
Proof.
  eexists. split; [by vm_compute|].
  split; [by vm_compute|]. split; [by vm_compute|]. split; by vm_compute.
Qed.

(** C7 at a table the program breaks the claim on: one row with a blank
    depot cell, a need of 3 and an availability of 5. The test of line 88
    does not skip the depot, and the run records a line whose sender and
    receiver are that same depot. *)
Lemma blank_depot_self_transfer :
  ∃ st, Float64.allocate Float64.sort_values_mergesort Float64.table_blank_depot = Ok st ∧
    Float64.transfer_list st = [ Float64.mkTransfer BolgeIci None None "X" 3 ] ∧
    ∃ t, t ∈ Float64.transfer_list st ∧ Float64.gonderen_depo t = Float64.alan_depo t.
Proof.
  eexists. split; [by vm_compute|]. split; [by vm_compute|].
  eexists. split; [by apply list_elem_of_singleton | done].
Qed.
